(** * fb_notif_watcher: a shallow embedding of the mail watcher and its properties

    The script polls an IMAP inbox for unread Facebook notifications,
    classifies every message against a list of search terms, forwards the
    matching ones to a Telegram chat and flags the others for deletion.

    Python strings are sequences of Unicode code points and are modelled as
    [list N]; byte strings as [list byte]; the Python [set] of found terms as
    a [gset]; the IMAP session as explicit state threaded through a small
    state-and-exception monad. *)

From Stdlib Require Import NArith Ascii String.
From Stdlib.Strings Require Import Byte.
From stdpp Require Import gmap list.

Local Open Scope N_scope.
#[local] Set Warnings "-clear-no-such-hyp".

(** ** Python strings *)

Definition pystr := list N.

(** An ASCII literal as a Python string. *)
Fixpoint py (s : string) : pystr :=
  match s with
  | EmptyString => []
  | String a s' => N_of_ascii a :: py s'
  end.

Module Py.

(** [str.isspace] on one character, which is also what [\s] matches in a
    [str] pattern and what [str.strip()] removes. *)
Definition isspace (c : N) : bool :=
  ((9 <=? c) && (c <=? 13)) || ((28 <=? c) && (c <=? 32))
  || (c =? 133) || (c =? 160) || (c =? 5760)
  || ((8192 <=? c) && (c <=? 8202))
  || (c =? 8232) || (c =? 8233) || (c =? 8239) || (c =? 8287)
  || (c =? 12288).

Fixpoint lstrip (s : pystr) : pystr :=
  match s with
  | [] => []
  | c :: s' => if isspace c then lstrip s' else s
  end.

Definition rstrip (s : pystr) : pystr := reverse (lstrip (reverse s)).

(** [s.strip()] *)
Definition strip (s : pystr) : pystr := rstrip (lstrip s).

(** [s.split(sep)] for a separator of one character. *)
Fixpoint split (sep : N) (s : pystr) : list pystr :=
  match s with
  | [] => [[]]
  | c :: s' =>
      if c =? sep then [] :: split sep s'
      else match split sep s' with
           | h :: t => (c :: h) :: t
           | [] => [[c]]
           end
  end.

(** [sep.join(l)] *)
Fixpoint join (sep : pystr) (l : list pystr) : pystr :=
  match l with
  | [] => []
  | [x] => x
  | x :: l' => x ++ sep ++ join sep l'
  end.

(** [x or d] on a value that may be [None]: the empty string is falsy. *)
Definition or_else (x : option pystr) (d : pystr) : pystr :=
  match x with
  | Some (c :: s) => c :: s
  | _ => d
  end.

(** [s.startswith(p)] *)
Fixpoint startswith (p s : pystr) : bool :=
  match p, s with
  | [], _ => true
  | a :: p', b :: s' => (a =? b) && startswith p' s'
  | _ :: _, [] => false
  end.

(** The longest prefix of characters that [\S] matches. *)
Fixpoint nonspace_run (s : pystr) : pystr :=
  match s with
  | [] => []
  | c :: s' => if isspace c then [] else c :: nonspace_run s'
  end.

End Py.

(** ** The regular expressions of the script *)

Module Re.

(** A match of [https?://\S+] anchored at the start of [s]: one of the two
    schemes followed by a non-empty, maximal run of non-space characters.
    The two schemes differ in their fifth character, so the order in which
    the engine tries the optional [s] does not matter. *)
Definition scheme_match (scheme s : pystr) : option pystr :=
  if Py.startswith scheme s then
    match Py.nonspace_run (drop (length scheme) s) with
    | [] => None
    | run => Some (scheme ++ run)
    end
  else None.

Definition link_at (s : pystr) : option pystr :=
  match scheme_match (py "https://") s with
  | Some l => Some l
  | None => scheme_match (py "http://") s
  end.

(** [re.findall(r"https?://\S+", s)]: the non-overlapping matches from left
    to right; [skip] counts the characters of the previous match that are
    still to be stepped over. *)
Fixpoint findall_links_from (skip : nat) (s : pystr) : list pystr :=
  match s with
  | [] => []
  | _ :: s' =>
      match skip with
      | S k => findall_links_from k s'
      | O =>
          match link_at s with
          | Some l => l :: findall_links_from (length l - 1) s'
          | None => findall_links_from 0 s'
          end
      end
  end.

Definition findall_links (s : pystr) : list pystr := findall_links_from 0 s.

Section IgnoreCase.

(** [ieq p c]: under [re.IGNORECASE] the literal pattern character [p]
    matches the text character [c]. The case tables belong to the regex
    engine, not to the script. *)
Variable ieq : N -> N -> bool.

(** The literal [pat] matches at the start of [s]. *)
Fixpoint match_here (pat s : pystr) : bool :=
  match pat, s with
  | [], _ => true
  | p :: pat', c :: s' => ieq p c && match_here pat' s'
  | _ :: _, [] => false
  end.

(** [re.search(re.escape(pat), s, re.IGNORECASE)] as a truth value:
    [re.escape] makes every character of [pat] a literal, and [search]
    tries every start position from left to right. *)
Fixpoint search_escaped (pat s : pystr) : bool :=
  match_here pat s ||
  match s with
  | [] => false
  | _ :: s' => search_escaped pat s'
  end.

(** [pat] occurs in [s] as a literal substring, case-insensitively: some
    window of [s] has the length of [pat] and matches it character by
    character. *)
Definition occurs_ci (pat s : pystr) : Prop :=
  exists pre mid post,
    s = pre ++ mid ++ post /\ Forall2 (fun p c => ieq p c = true) pat mid.

End IgnoreCase.

(** Case-insensitive comparison restricted to the ASCII letters. *)
Definition ascii_lower (c : N) : N :=
  if (65 <=? c) && (c <=? 90) then c + 32 else c.

Definition ascii_ieq (p c : N) : bool := ascii_lower p =? ascii_lower c.

End Re.

(** ** What the script takes from its libraries and from the outside world *)

(** One element of [email.header.decode_header]'s result: raw bytes with an
    optional charset, or an already decoded string. *)
Inductive fragment :=
| FragBytes (b : list byte)
| FragStr (s : pystr).

Record Env := {
  (** [os.getenv("SEARCH_TERMS")] once the [.env] file is loaded *)
  getenv_SEARCH_TERMS : option pystr;
  (** [re.IGNORECASE] on one pattern character and one text character *)
  re_ieq : N -> N -> bool;
  (** [email.header.decode_header] *)
  decode_header : pystr -> list (fragment * option pystr);
  (** [b.decode(codec, errors="replace")]; the codec is taken to exist *)
  bytes_decode : list byte -> pystr -> pystr;
  (** [BeautifulSoup(html, "lxml").get_text(" ", strip=True)] *)
  bs4_get_text : pystr -> pystr;
  (** [requests.get(url, ...).text], [None] when the call raises *)
  requests_get : pystr -> option pystr;
  (** whether the Telegram API answers a [sendMessage] with a success status,
      given the payloads already posted in this run and the new one *)
  telegram_accepts : list pystr -> pystr -> bool
}.

(** ** Messages *)

(** A MIME tree: [is_multipart()] holds for the inner nodes, whose content
    type is [multipart/*] or [message/*]; a leaf has a content type, the
    charset parameter and the transfer-decoded payload. *)
#[warnings="-register-all"] Inductive Part :=
| Leaf (ctype : pystr) (charset : option pystr) (payload : list byte)
| Multipart (subparts : list Part).

Record Message := {
  Subject : option pystr;
  From : option pystr;
  body : Part
}.

(** [Message.walk()]: the node itself, then its subparts depth first. *)
Fixpoint walk (p : Part) : list Part :=
  p :: match p with
       | Leaf _ _ _ => []
       | Multipart ps => concat (map walk ps)
       end.

Definition newline : pystr := [10].

Section Script.

Variable E : Env.

(** *** Configuration *)

(** ["מומה,Moma"] *)
Definition default_terms : pystr :=
  [1502; 1493; 1502; 1492] ++ py ",Moma".

Definition SEARCH_TERMS : list pystr :=
  map Py.strip
      (Py.split 44 (default default_terms (getenv_SEARCH_TERMS E))).

(** [re.search(re.escape(term), text, re.IGNORECASE)] is not [None]. *)
Definition term_in (term text : pystr) : bool :=
  Re.search_escaped (re_ieq E) term text.

(** *** Helpers *)

Definition decode_fragment (fe : fragment * option pystr) : pystr :=
  match fe with
  | (FragBytes b, enc) => bytes_decode E b (Py.or_else enc (py "utf-8"))
  | (FragStr s, _) => s
  end.

Definition decode_mime_words (s : pystr) : pystr :=
  concat (map decode_fragment (decode_header E s)).

(** The decoded payload of a leaf. *)
Definition decoded (charset : option pystr) (payload : list byte) : pystr :=
  bytes_decode E payload (Py.or_else charset (py "utf-8")).

(** What one step of the loop over [msg.walk()] appends to [parts]. *)
Definition walked_text (p : Part) : list pystr :=
  match p with
  | Leaf ctype charset payload =>
      if bool_decide (ctype = py "text/plain") then
        [decoded charset payload]
      else if bool_decide (ctype = py "text/html") then
        [bs4_get_text E (decoded charset payload)]
      else []
  | Multipart _ => []
  end.

Definition extract_text_from_msg (msg : Message) : pystr :=
  let parts :=
    match body msg with
    | Multipart _ => concat (map walked_text (walk (body msg)))
    | Leaf ctype charset payload =>
        match payload with
        | [] => []
        | _ :: _ =>
            let body_dec := decoded charset payload in
            if bool_decide (ctype = py "text/plain") then [body_dec]
            else [bs4_get_text E body_dec]
        end
    end in
  Py.join newline parts.

Definition extract_links (text : pystr) : list pystr :=
  Re.findall_links text.

(** *** Classification *)

(** [f"{subject}\n{payload_text}"] *)
Definition search_space (msg : Message) : pystr :=
  decode_mime_words (Py.or_else (Subject msg) []) ++ newline
    ++ extract_text_from_msg msg.

(** The set comprehension over [SEARCH_TERMS]. *)
Definition terms_in (text : pystr) : gset pystr :=
  list_to_set (List.filter (fun term => term_in term text) SEARCH_TERMS).

(** The inner loop over [SEARCH_TERMS] on one fetched page. *)
Definition add_page_terms (html_text : pystr) (found : gset pystr)
  : gset pystr :=
  fold_left
    (fun found term =>
       if term_in term html_text then {[term]} ∪ found else found)
    SEARCH_TERMS found.

(** The loop over the links: a fetch that raises leaves [found] as it is. *)
Fixpoint follow_links (urls : list pystr) (found : gset pystr)
  : gset pystr :=
  match urls with
  | [] => found
  | url :: urls' =>
      follow_links urls'
        match requests_get E url with
        | Some html_text => add_page_terms html_text found
        | None => found
        end
  end.

(** The value of [found] when [msg_matches] returns. *)
Definition found_set (msg : Message) : gset pystr :=
  let found := terms_in (search_space msg) in
  if bool_decide (found = ∅) then
    follow_links (extract_links (extract_text_from_msg msg)) found
  else found.

(** [list(found)]: Python leaves the order of a set's elements open,
    [elements] fixes one. *)
Definition msg_matches (msg : Message) : list pystr :=
  elements (found_set msg).

End Script.

(** ** The IMAP session *)

Inductive flag := Seen | Deleted.

(** A message of the selected mailbox with the two flags the script reads or
    writes. Its message sequence number is its position, counted from 1. *)
Record entry := {
  e_msg : Message;
  e_seen : bool;
  e_deleted : bool
}.

Definition add_flag (f : flag) (e : entry) : entry :=
  match f with
  | Seen => {| e_msg := e_msg e; e_seen := true; e_deleted := e_deleted e |}
  | Deleted => {| e_msg := e_msg e; e_seen := e_seen e; e_deleted := true |}
  end.

(** What a run does to the outside world, in order. *)
Inductive event :=
| EvSearch
| EvFetch (num : nat)
| EvPost (payload : pystr) (ok : bool)
| EvStore (num : nat) (f : flag)
| EvExpunge.

Record State := {
  inbox : list entry;
  trace : list event
}.

(** The session when a run begins. *)
Definition start (mb : list entry) : State := {| inbox := mb; trace := [] |}.

Inductive exn := HTTPError | IMAPError.

Inductive result (A : Type) :=
| Ok (a : A)
| Raise (e : exn).

Arguments Ok {A} a.
Arguments Raise {A} e.

(** Commands read and update the state; an exception keeps the state reached
    so far and skips the rest. *)
Definition M (A : Type) : Type := State -> result A * State.

Definition ret {A} (a : A) : M A := fun st => (Ok a, st).

Definition bind {A B} (m : M A) (k : A -> M B) : M B :=
  fun st =>
    match m st with
    | (Ok a, st') => k a st'
    | (Raise e, st') => (Raise e, st')
    end.

Definition raise {A} (e : exn) : M A := fun st => (Raise e, st).

Definition emit (ev : event) : M unit :=
  fun st => (Ok tt, {| inbox := inbox st; trace := trace st ++ [ev] |}).

Definition get_inbox : M (list entry) := fun st => (Ok (inbox st), st).

Definition set_inbox (mb : list entry) : M unit :=
  fun st => (Ok tt, {| inbox := mb; trace := trace st |}).

#[global] Instance M_ret : MRet M := @ret.
#[global] Instance M_bind : MBind M := fun A B k m => bind m k.

(** [for x in l: body(x)] *)
Fixpoint for_each {A} (l : list A) (body : A -> M unit) : M unit :=
  match l with
  | [] => ret tt
  | x :: l' => body x ;; for_each l' body
  end.

Module Imap.

(** A [HEADER] search key matches when the string is a substring of the
    header's text, without regard to the case of ASCII letters. *)
Definition header_contains (needle : pystr) (value : option pystr) : bool :=
  match value with
  | Some v => Re.search_escaped Re.ascii_ieq needle v
  | None => false
  end.

(** [UNSEEN HEADER From "facebookmail.com"] on one message. *)
Definition unseen_from_facebook (e : entry) : bool :=
  negb (e_seen e)
  && header_contains (py "facebookmail.com") (From (e_msg e)).

(** The sequence numbers of the messages of [mb] that satisfy [key]. *)
Definition matching (key : entry -> bool) (mb : list entry) : list nat :=
  List.filter
    (fun num => match mb !! (num - 1)%nat with
                | Some e => key e
                | None => false
                end)
    (seq 1 (length mb)).

(** [M.search(None, '(UNSEEN HEADER From "facebookmail.com")')] with the
    split of its answer into message numbers. *)
Definition search : M (list nat) :=
  emit EvSearch ;;
  mb ← get_inbox;
  ret (matching unseen_from_facebook mb).

(** [M.fetch(num, "(RFC822)")] followed by [email.message_from_bytes]. The
    [RFC822] item is the same as [BODY[]], and on a mailbox selected for
    writing fetching it sets [\Seen] on the message (RFC 3501, 6.4.5). *)
Definition fetch (num : nat) : M Message :=
  emit (EvFetch num) ;;
  mb ← get_inbox;
  match num, mb !! (num - 1)%nat with
  | S _, Some e => set_inbox (<[(num - 1)%nat := add_flag Seen e]> mb) ;;
                   ret (e_msg e)
  | _, _ => raise IMAPError
  end.

(** [M.store(num, "+FLAGS", flag)] *)
Definition store (num : nat) (f : flag) : M unit :=
  emit (EvStore num f) ;;
  mb ← get_inbox;
  match num, mb !! (num - 1)%nat with
  | S _, Some e => set_inbox (<[(num - 1)%nat := add_flag f e]> mb)
  | _, _ => raise IMAPError
  end.

(** [M.expunge()]: every message that carries [\Deleted] leaves the
    mailbox. *)
Definition expunge : M unit :=
  emit EvExpunge ;;
  mb ← get_inbox;
  set_inbox (List.filter (fun e => negb (e_deleted e)) mb).

End Imap.

(** The payloads posted so far in a run, oldest first. *)
Definition posted (tr : list event) : list pystr :=
  omap (fun ev => match ev with EvPost p _ => Some p | _ => None end) tr.

Section Main.

Variable E : Env.

(** [text[:4096]] is posted; [raise_for_status] raises on an error status. *)
Definition send_telegram (text : pystr) : M unit :=
  fun st =>
    let payload := take 4096 text in
    let ok := telegram_accepts E (posted (trace st)) payload in
    (if ok then Ok tt else Raise HTTPError,
     {| inbox := inbox st; trace := trace st ++ [EvPost payload ok] |}).

(** The alert text composed for a message and its matches. *)
Definition alert_text (msg : Message) (matches : list pystr) : pystr :=
  let link :=
    default (py "(no link)")
            (head (extract_links (extract_text_from_msg E msg))) in
  let subj :=
    decode_mime_words E (Py.or_else (Subject msg) (py "(no subject)")) in
  [128276] ++ py " Facebook hit (found: " ++ Py.join (py ", ") matches
    ++ py ")" ++ newline ++ subj ++ newline ++ link.

(** The body of the loop over the message numbers. *)
Definition handle (num : nat) : M unit :=
  msg ← Imap.fetch num;
  let matches := msg_matches E msg in
  match matches with
  | _ :: _ => send_telegram (alert_text msg matches) ;; Imap.store num Seen
  | [] => Imap.store num Deleted
  end.

(** [main] once logged in; leaving the [with] block logs out, which changes
    neither flags nor messages. *)
Definition main : M unit :=
  msg_nums ← Imap.search;
  for_each msg_nums handle ;;
  Imap.expunge.

End Main.

(** ** Sample environments and mailboxes *)

Module Sample.

(** ASCII payload bytes. *)
Definition bytes (s : string) : list byte := list_byte_of_string s.

(** Every byte decodes to the code point of its value. *)
Definition decode_bytes (b : list byte) (codec : pystr) : pystr :=
  map Byte.to_N b.

(** An environment with the default search terms, headers without encoded
    words, and the given web and chat behaviour. On ASCII text, which is all
    the samples use, the case folding and the decoding below are those of
    the regex engine and of the UTF-8 codec. *)
Definition env (web : pystr -> option pystr)
    (chat : list pystr -> pystr -> bool) : Env :=
  {| getenv_SEARCH_TERMS := None;
     re_ieq := Re.ascii_ieq;
     decode_header := fun s => [(FragStr s, None)];
     bytes_decode := decode_bytes;
     bs4_get_text := fun html => html;
     requests_get := web;
     telegram_accepts := chat |}.

Definition offline : pystr -> option pystr := fun _ => None.
Definition chat_up : list pystr -> pystr -> bool := fun _ _ => true.
Definition chat_down : list pystr -> pystr -> bool := fun _ _ => false.

(** A single-part [text/plain] notification from Facebook. *)
Definition notification (subject text : string) : Message :=
  {| Subject := Some (py subject);
     From := Some (py "Facebook <notification@facebookmail.com>");
     body := Leaf (py "text/plain") None (bytes text) |}.

Definition unread (msg : Message) : entry :=
  {| e_msg := msg; e_seen := false; e_deleted := false |}.


(** A match and a message without any term. *)
Definition hit : Message := notification "Moma tonight" "see you there".
Definition miss : Message := notification "Poke" "someone poked you".

(** A message that links to a page. *)
Definition linked : Message :=
  notification "Event" "details: http://fb.example/e1 bye".

(** The page at that link mentions a term. *)
Definition web_hit (url : pystr) : option pystr :=
  if bool_decide (url = py "http://fb.example/e1") then Some (py "<p>MOMA</p>")
  else None.

(** A read message of another sender that a client had flagged [\Deleted]. *)
Definition stale : entry :=
  {| e_msg := {| Subject := Some (py "Invoice");
                 From := Some (py "billing@example.org");
                 body := Leaf (py "text/plain") None (bytes "paid") |};
     e_seen := true;
     e_deleted := true |}.

End Sample.

(** ** Vocabulary of the statements *)

Section Vocabulary.

Variable E : Env.


(** The links of a message's body text. *)
Definition links_of (msg : Message) : list pystr :=
  extract_links (extract_text_from_msg E msg).

(** The message numbers that the search of a run returns. *)
Definition listed (mb : list entry) : list nat :=
  Imap.matching Imap.unseen_from_facebook mb.

(** The events of one pass through the loop body that runs to its end, for
    message number [num] of a mailbox holding the messages [msgs]. *)
Definition handling (msgs : list Message) (num : nat) : list event :=
  match msgs !! (num - 1)%nat with
  | Some msg =>
      match msg_matches E msg with
      | [] => [EvFetch num; EvStore num Deleted]
      | matches =>
          [EvFetch num; EvPost (take 4096 (alert_text E msg matches)) true;
           EvStore num Seen]
      end
  | None => []
  end.

(** The flags of a message once the loop body has handled it: [\Seen] from
    the fetch (and from the store of the matching branch), [\Deleted] when
    nothing matched. *)
Definition handled (e : entry) : entry :=
  match msg_matches E (e_msg e) with
  | [] => add_flag Deleted (add_flag Seen e)
  | _ :: _ => add_flag Seen e
  end.

(** The mailbox after the loop has handled every listed message. *)
Definition processed (mb : list entry) : list entry :=
  (fun e => if Imap.unseen_from_facebook e then handled e else e) <$> mb.

(** The mailbox after the loop body has handled the messages [nums]. *)
Definition flags_after (nums : list nat) (mb : list entry) : list entry :=
  foldl (fun mb num => alter handled (num - 1)%nat mb) mb nums.

End Vocabulary.

(** The result of [M.expunge()] on a mailbox. *)
Definition expunged (mb : list entry) : list entry :=
  List.filter (fun e => negb (e_deleted e)) mb.

(** [mb'] holds the same messages as [mb] in the same order, no flag was
    taken away, and every message whose number is outside [nums] kept its
    flags. *)
Definition only_flags_added (nums : list nat) (mb mb' : list entry) : Prop :=
  length mb' = length mb /\
  forall i e, mb !! i = Some e ->
    exists e', mb' !! i = Some e' /\ e_msg e' = e_msg e
      /\ (e_seen e = true -> e_seen e' = true)
      /\ (e_deleted e = true -> e_deleted e' = true)
      /\ (S i ∉ nums -> e' = e).

(** ** Further vocabulary and samples *)

(** The leaves of a MIME tree, depth first. *)
Fixpoint leaves (p : Part) : list Part :=
  match p with
  | Leaf _ _ _ => [p]
  | Multipart ps => concat (map leaves ps)
  end.


Module Sample2.

(** An environment like [Sample.env] with [SEARCH_TERMS] set. *)
Definition env_with_terms (terms : string) : Env :=
  {| getenv_SEARCH_TERMS := Some (py terms);
     re_ieq := Re.ascii_ieq;
     decode_header := fun s => [(FragStr s, None)];
     bytes_decode := Sample.decode_bytes;
     bs4_get_text := fun html => html;
     requests_get := Sample.offline;
     telegram_accepts := Sample.chat_up |}.

Definition plain (text : string) : Part :=
  Leaf (py "text/plain") None (Sample.bytes text).

Definition attachment : Part :=
  Leaf (py "image/png") None (Sample.bytes "PNG").

(** The same two text parts, flat and inside a nested container next to an
    attachment. *)
Definition flat : Message :=
  {| Subject := Some (py "Event");
     From := Some (py "notification@facebookmail.com");
     body := Multipart [plain "first"; plain "second"] |}.

Definition nested : Message :=
  {| Subject := Some (py "Event");
     From := Some (py "notification@facebookmail.com");
     body := Multipart [Multipart [plain "first"; attachment];
                        plain "second"] |}.


End Sample2.

(** * Properties *)

(** ** Case-insensitive search *)

Section SearchFacts.

Variable ieq : N -> N -> bool.

Lemma match_here_spec pat s :
  Re.match_here ieq pat s = true <->
  exists mid post,
    s = mid ++ post /\ Forall2 (fun p c => ieq p c = true) pat mid.
Proof.
  revert s. induction pat as [|p pat IH]; intros s; simpl.
  - split; [intros _|done]. exists [], s. split; [done|constructor].
  - destruct s as [|c s].
    + split; [done|]. intros (mid & post & Hs & Hm).
      inversion Hm; subst. discriminate.
    + rewrite andb_true_iff, IH. split.
      * intros (Hpc & mid & post & -> & Hm).
        exists (c :: mid), post. split; [done|constructor; assumption].
      * intros (mid & post & Hs & Hm).
        inversion Hm as [|? c' ? mid' Hpc Hm']; subst.
        simpl in Hs. injection Hs as -> ->. split; [done|].
        by exists mid', post.
Qed.

Lemma search_escaped_spec pat s :
  Re.search_escaped ieq pat s = true <-> Re.occurs_ci ieq pat s.
Proof.
  unfold Re.occurs_ci. induction s as [|c s IH].
  - simpl. rewrite orb_false_r, match_here_spec. split.
    + intros (mid & post & Hs & Hm). exists [], mid, post. done.
    + intros (pre & mid & post & Hs & Hm).
      symmetry in Hs. apply app_eq_nil in Hs as [-> Hs]. eauto.
  - cbn [Re.search_escaped]. rewrite orb_true_iff, IH, match_here_spec.
    split.
    + intros [(mid & post & Hs & Hm)|(pre & mid & post & -> & Hm)].
      * exists [], mid, post. done.
      * exists (c :: pre), mid, post. done.
    + intros (pre & mid & post & Hs & Hm). destruct pre as [|c' pre].
      * left. by exists mid, post.
      * right. simpl in Hs. injection Hs as -> ->. by exists pre, mid, post.
Qed.

End SearchFacts.

(** ** Classification *)

Section MatchFacts.

Variable E : Env.

Lemma elem_of_terms_in term text :
  term ∈ terms_in E text <->
  term ∈ SEARCH_TERMS E /\ Re.occurs_ci (re_ieq E) term text.
Proof.
  unfold terms_in. rewrite elem_of_list_to_set, list_elem_of_In, filter_In.
  unfold term_in. by rewrite search_escaped_spec, list_elem_of_In.
Qed.

Lemma add_page_terms_union html_text found :
  add_page_terms E html_text found = terms_in E html_text ∪ found.
Proof.
  unfold add_page_terms, terms_in. revert found.
  induction (SEARCH_TERMS E) as [|term terms IH]; intros found; simpl.
  - set_solver.
  - rewrite IH. destruct (term_in E term html_text); simpl; set_solver.
Qed.

Lemma elem_of_follow_links urls found term :
  term ∈ follow_links E urls found <->
  term ∈ found \/
  exists url page,
    url ∈ urls /\ requests_get E url = Some page /\ term ∈ terms_in E page.
Proof.
  revert found. induction urls as [|url urls IH]; intros found; simpl.
  - split; [auto|]. intros [?|(? & ? & Hin & _)]; [done|]. by inversion Hin.
  - rewrite IH. destruct (requests_get E url) as [page|] eqn:Hget.
    + rewrite add_page_terms_union, elem_of_union. split.
      * intros [[Hp|Hf]|(u & p & Hu & Hg & Ht)]; [right|by left|right].
        -- exists url, page. split; [left|done].
        -- exists u, p. split; [by right|done].
      * intros [Hf|(u & p & Hu & Hg & Ht)]; [by left; right|].
        apply elem_of_cons in Hu as [->|Hu].
        -- left; left. congruence.
        -- right. eauto.
    + split.
      * intros [Hf|(u & p & Hu & Hg & Ht)]; [by left|right].
        exists u, p. split; [by right|done].
      * intros [Hf|(u & p & Hu & Hg & Ht)]; [by left|].
        apply elem_of_cons in Hu as [->|Hu]; [congruence|]. right. eauto.
Qed.



Lemma elem_of_found_set msg term :
  term ∈ found_set E msg <->
  term ∈ terms_in E (search_space E msg) \/
  (terms_in E (search_space E msg) = ∅ /\
   exists url page,
     url ∈ links_of E msg /\ requests_get E url = Some page
     /\ term ∈ terms_in E page).
Proof.
  unfold found_set, links_of. case_bool_decide as Hempty.
  - rewrite elem_of_follow_links, Hempty. set_solver.
  - set_solver.
Qed.


End MatchFacts.

Section Classification.

Variable E : Env.



(** C10: the list that [msg_matches] returns has no duplicates and holds
    configured search terms only. *)
Theorem msg_matches_nodup_configured (msg : Message) :
  NoDup (msg_matches E msg) /\ msg_matches E msg ⊆ SEARCH_TERMS E.
Proof.
  split; [apply NoDup_elements|]. intros term Hterm.
  unfold msg_matches in Hterm. rewrite elem_of_elements in Hterm.
  apply elem_of_found_set in Hterm
    as [Ht|(_ & url & page & _ & _ & Ht)];
    by apply elem_of_terms_in in Ht as [Hin _].
Qed.

End Classification.

(** ** The mailbox *)

Local Close Scope N_scope.


Lemma elem_of_matching key mb num :
  num ∈ Imap.matching key mb <->
  0 < num /\ exists e, mb !! (num - 1) = Some e /\ key e = true.
Proof.
  unfold Imap.matching. rewrite list_elem_of_In, filter_In, in_seq. split.
  - intros [Hnum Hkey]. split; [lia|].
    destruct (mb !! (num - 1)) as [e|]; [by exists e|done].
  - intros (Hpos & e & He & Hkey). rewrite He. split; [|done].
    apply lookup_lt_Some in He. lia.
Qed.

Lemma NoDup_matching key mb : NoDup (Imap.matching key mb).
Proof. apply NoDup_ListNoDup, List.NoDup_filter, seq_NoDup. Qed.

Lemma matching_in_range key mb :
  Forall (fun num => 0 < num <= length mb) (Imap.matching key mb).
Proof.
  apply Forall_forall. intros num (Hpos & e & He & _)%elem_of_matching.
  apply lookup_lt_Some in He. lia.
Qed.

Lemma fmap_msg_alter (f : entry -> entry) (i : nat) (mb : list entry) :
  (forall e, e_msg (f e) = e_msg e) ->
  e_msg <$> alter f i mb = e_msg <$> mb.
Proof.
  intros Hf. apply list_eq. intros j. rewrite !list_lookup_fmap.
  destruct (decide (i = j)) as [->|Hne].
  - rewrite list_lookup_alter_eq. destruct (mb !! j); simpl; by rewrite ?Hf.
  - by rewrite list_lookup_alter_ne.
Qed.


Lemma insert_as_alter (f : entry -> entry) (i : nat) e (mb : list entry) :
  mb !! i = Some e -> <[i := f e]> mb = alter f i mb.
Proof.
  intros He. apply list_eq. intros j. destruct (decide (i = j)) as [->|Hne].
  - rewrite list_lookup_alter_eq, He.
    apply list_lookup_insert_eq. by apply lookup_lt_Some in He.
  - by rewrite list_lookup_insert_ne, list_lookup_alter_ne.
Qed.

Lemma only_flags_added_refl nums mb : only_flags_added nums mb mb.
Proof. split; [done|]. intros i e He. by exists e. Qed.

Lemma only_flags_added_alter nums mb mb' (f : entry -> entry) num :
  only_flags_added nums mb mb' ->
  num ∈ nums -> 0 < num ->
  (forall e, e_msg (f e) = e_msg e
             /\ (e_seen e = true -> e_seen (f e) = true)
             /\ (e_deleted e = true -> e_deleted (f e) = true)) ->
  only_flags_added nums mb (alter f (num - 1) mb').
Proof.
  intros [Hlen Hall] Hnum Hpos Hf. split; [by rewrite length_alter|].
  intros i e He. destruct (Hall i e He) as (e' & He' & Hm & Hs & Hd & Hout).
  destruct (decide (num - 1 = i)) as [<-|Hne].
  - exists (f e'). rewrite list_lookup_alter_eq, He'.
    destruct (Hf e') as (Hfm & Hfs & Hfd). repeat split; auto.
    + congruence.
    + intros Hnot. exfalso. apply Hnot.
      by replace (S (num - 1)) with num by lia.
  - exists e'. by rewrite list_lookup_alter_ne.
Qed.

(** ** One run *)

Section RunFacts.

Variable E : Env.

Lemma handled_msg e : e_msg (handled E e) = e_msg e.
Proof. unfold handled. by destruct (msg_matches E (e_msg e)). Qed.

Lemma handled_adds e :
  e_msg (handled E e) = e_msg e
  /\ (e_seen e = true -> e_seen (handled E e) = true)
  /\ (e_deleted e = true -> e_deleted (handled E e) = true).
Proof. unfold handled. by destruct (msg_matches E (e_msg e)). Qed.

Lemma add_seen_adds e :
  e_msg (add_flag Seen e) = e_msg e
  /\ (e_seen e = true -> e_seen (add_flag Seen e) = true)
  /\ (e_deleted e = true -> e_deleted (add_flag Seen e) = true).
Proof. done. Qed.

Lemma posted_app tr tr' : posted (tr ++ tr') = posted tr ++ posted tr'.
Proof. apply omap_app. Qed.

(** The loop body on a message number of the mailbox. *)
Lemma handle_run num e st :
  0 < num -> inbox st !! (num - 1) = Some e ->
  handle E num st =
    match msg_matches E (e_msg e) with
    | [] =>
        (Ok tt,
         {| inbox := alter (handled E) (num - 1) (inbox st);
            trace := trace st ++ [EvFetch num; EvStore num Deleted] |})
    | matches =>
        let payload := take 4096 (alert_text E (e_msg e) matches) in
        if telegram_accepts E (posted (trace st)) payload then
          (Ok tt,
           {| inbox := alter (handled E) (num - 1) (inbox st);
              trace := trace st
                         ++ [EvFetch num; EvPost payload true;
                             EvStore num Seen] |})
        else
          (Raise HTTPError,
           {| inbox := alter (add_flag Seen) (num - 1) (inbox st);
              trace := trace st ++ [EvFetch num; EvPost payload false] |})
    end.
Proof.
  intros Hpos He. destruct num as [|k]; [lia|].
  replace (S k - 1) with k in * by lia.
  assert (k < length (inbox st)) as Hlt by by apply lookup_lt_Some in He.
  rewrite <- !(insert_as_alter _ _ _ _ He).
  unfold handle, Imap.fetch, Imap.store, send_telegram, mbind, M_bind, bind,
    emit, get_inbox, set_inbox, ret, raise. simpl.
  replace (k - 0) with k by lia. rewrite He. simpl.
  unfold handled. destruct (msg_matches E (e_msg e)) as [|m ms] eqn:Hm; simpl.
  - rewrite list_lookup_insert_eq by done. simpl.
    by rewrite list_insert_insert_eq, <- app_assoc.
  - rewrite posted_app, app_nil_r.
    destruct (telegram_accepts E _ _); simpl.
    + rewrite list_lookup_insert_eq by done. simpl.
      by rewrite list_insert_insert_eq, <- !app_assoc.
    + by rewrite <- app_assoc.
Qed.

Lemma handling_run msgs num msg :
  msgs !! (num - 1) = Some msg ->
  handling E msgs num =
    match msg_matches E msg with
    | [] => [EvFetch num; EvStore num Deleted]
    | matches =>
        [EvFetch num; EvPost (take 4096 (alert_text E msg matches)) true;
         EvStore num Seen]
    end.
Proof. intros Hmsg. unfold handling. by rewrite Hmsg. Qed.

(** The loop over a list of message numbers of the mailbox: either every
    pass runs to its end, or the alert of one message fails and the loop
    stops right there. *)
Lemma for_each_handle nums st :
  Forall (fun num => 0 < num <= length (inbox st)) nums ->
  match for_each nums (handle E) st with
  | (Ok _, st') =>
      trace st' = trace st ++ concat (handling E (e_msg <$> inbox st) <$> nums)
      /\ inbox st' = flags_after E nums (inbox st)
  | (Raise err, st') =>
      err = HTTPError
      /\ exists before num rest e,
          nums = before ++ num :: rest
          /\ 0 < num
          /\ flags_after E before (inbox st) !! (num - 1) = Some e
          /\ msg_matches E (e_msg e) ≠ []
          /\ trace st' =
               trace st
                 ++ concat (handling E (e_msg <$> inbox st) <$> before)
                 ++ [EvFetch num;
                     EvPost (take 4096 (alert_text E (e_msg e)
                                          (msg_matches E (e_msg e)))) false]
          /\ inbox st' =
               alter (add_flag Seen) (num - 1)
                     (flags_after E before (inbox st))
  end.
Proof.
  revert st. induction nums as [|num nums IH]; intros st Hrange.
  - simpl. by rewrite app_nil_r.
  - apply Forall_cons in Hrange as [[Hpos Hle] Hrange].
    destruct (lookup_lt_is_Some_2 (inbox st) (num - 1)) as [e He]; [lia|].
    assert ((e_msg <$> inbox st) !! (num - 1) = Some (e_msg e)) as Hmsg
      by by rewrite list_lookup_fmap, He.
    cbn [for_each]. unfold mbind, M_bind, bind.
    rewrite (handle_run num e st Hpos He).
    cbn [fmap list_fmap concat]. rewrite (handling_run _ _ _ Hmsg).
    destruct (msg_matches E (e_msg e)) as [|m ms] eqn:Hm.
    + set (st1 := {| inbox := alter (handled E) (num - 1) (inbox st);
                     trace := trace st ++ [EvFetch num; EvStore num Deleted] |}).
      specialize (IH st1). simpl in IH.
      rewrite length_alter, (fmap_msg_alter _ _ _ (handled_msg)) in IH.
      specialize (IH Hrange).
      destruct (for_each nums (handle E) st1) as [[[]|err] st'].
      * destruct IH as [-> ->]. split; [by rewrite <- app_assoc|done].
      * destruct IH as (-> & before & n & rest & e' & -> & Hn & He' & Hne
                        & -> & ->).
        split; [done|]. exists (num :: before), n, rest, e'.
        cbn [fmap list_fmap concat]. rewrite (handling_run _ _ _ Hmsg), Hm.
        repeat split; try done. by rewrite <- !app_assoc.
    + cbv zeta.
      destruct (telegram_accepts E (posted (trace st)) _) eqn:Hok.
      * set (st1 := {| inbox := alter (handled E) (num - 1) (inbox st);
                       trace := _ |}).
        specialize (IH st1). simpl in IH.
        rewrite length_alter, (fmap_msg_alter _ _ _ (handled_msg)) in IH.
        specialize (IH Hrange).
        destruct (for_each nums (handle E) st1) as [[[]|err] st'].
        -- destruct IH as [-> ->]. split; [by rewrite <- app_assoc|done].
        -- destruct IH as (-> & before & n & rest & e' & -> & Hn & He' & Hne
                           & -> & ->).
           split; [done|]. exists (num :: before), n, rest, e'.
           cbn [fmap list_fmap concat]. rewrite (handling_run _ _ _ Hmsg), Hm.
           repeat split; try done. by rewrite <- !app_assoc.
      * split; [done|]. exists [], num, nums, e. simpl.
        rewrite Hm. by repeat split.
Qed.

(** The flags of every message after the loop body has handled the
    messages [nums], each once. *)
Lemma lookup_flags_after nums (mb : list entry) (i : nat) :
  NoDup nums -> Forall (fun num => 0 < num) nums ->
  flags_after E nums mb !! i =
  (fun e => if bool_decide (S i ∈ nums) then handled E e else e) <$> mb !! i.
Proof.
  revert mb. induction nums as [|num nums IH]; intros mb Hnd Hpos.
  - simpl. by destruct (mb !! i).
  - apply NoDup_cons in Hnd as [Hnotin Hnd].
    apply Forall_cons in Hpos as [Hnum Hpos].
    unfold flags_after in *. cbn [foldl]. rewrite IH by done.
    destruct (decide (num - 1 = i)) as [<-|Hne].
    + replace (S (num - 1)) with num by lia.
      rewrite list_lookup_alter_eq, bool_decide_eq_false_2 by done.
      rewrite bool_decide_eq_true_2 by left.
      by destruct (mb !! (num - 1)).
    + rewrite list_lookup_alter_ne by done.
      destruct (mb !! i) as [e|]; [simpl|done].
      destruct (decide (S i ∈ nums)) as [Hin|Hout].
      * rewrite !bool_decide_eq_true_2; [done|by right|done].
      * rewrite !bool_decide_eq_false_2; [done| |done].
        intros [Heq|Hin]%elem_of_cons; [lia|done].
Qed.

Lemma flags_after_listed mb : flags_after E (listed mb) mb = processed E mb.
Proof.
  apply list_eq. intros i. unfold processed, listed.
  rewrite lookup_flags_after, list_lookup_fmap.
  - destruct (mb !! i) as [e|] eqn:He; [simpl|done]. f_equal.
    destruct (Imap.unseen_from_facebook e) eqn:Hkey.
    + rewrite bool_decide_eq_true_2; [done|]. apply elem_of_matching.
      split; [lia|]. exists e. by replace (S i - 1) with i by lia.
    + rewrite bool_decide_eq_false_2; [done|].
      intros (_ & e' & He' & Hkey')%elem_of_matching.
      replace (S i - 1) with i in He' by lia. congruence.
  - apply NoDup_matching.
  - eapply Forall_impl; [apply matching_in_range|]. simpl. lia.
Qed.

Lemma only_flags_added_flags_after nums before mb mb' :
  only_flags_added nums mb mb' ->
  before ⊆ nums -> Forall (fun num => 0 < num) before ->
  only_flags_added nums mb (flags_after E before mb').
Proof.
  revert mb'. induction before as [|num before IH]; intros mb' Hadd Hsub Hpos.
  - done.
  - apply Forall_cons in Hpos as [Hnum Hpos]. unfold flags_after. cbn [foldl].
    apply IH; [|set_solver|done].
    apply only_flags_added_alter; [done|set_solver|done|apply handled_adds].
Qed.


(** What a whole run does, from any state of the session. *)
Lemma main_run st :
  match main E st with
  | (Ok _, st') =>
      trace st' =
        trace st ++ [EvSearch]
          ++ concat (handling E (e_msg <$> inbox st) <$> listed (inbox st))
          ++ [EvExpunge]
      /\ inbox st' = expunged (processed E (inbox st))
  | (Raise err, st') =>
      err = HTTPError
      /\ exists before num rest e,
          listed (inbox st) = before ++ num :: rest
          /\ 0 < num
          /\ inbox st !! (num - 1) = Some e
          /\ msg_matches E (e_msg e) ≠ []
          /\ trace st' =
               trace st ++ [EvSearch]
                 ++ concat (handling E (e_msg <$> inbox st) <$> before)
                 ++ [EvFetch num;
                     EvPost (take 4096 (alert_text E (e_msg e)
                                          (msg_matches E (e_msg e)))) false]
          /\ inbox st' =
               alter (add_flag Seen) (num - 1)
                     (flags_after E before (inbox st))
  end.
Proof.
  unfold main, Imap.search, Imap.expunge, mbind, M_bind, bind, emit,
    get_inbox, set_inbox, ret. simpl. fold (listed (inbox st)).
  set (st0 := {| inbox := inbox st; trace := trace st ++ [EvSearch] |}).
  pose proof (for_each_handle (listed (inbox st)) st0
                (matching_in_range _ _)) as Hloop.
  destruct (for_each (listed (inbox st)) (handle E) st0) as [[[]|err] st'].
  - destruct Hloop as [Htr Hmb]. simpl in *. rewrite Htr, Hmb.
    rewrite flags_after_listed. split; [|done].
    by rewrite <- !app_assoc.
  - destruct Hloop as (-> & before & num & rest & e & Hl & Hpos & He & Hne
                       & Htr & Hmb).
    split; [done|]. exists before, num, rest, e. simpl in *.
    repeat split; try done.
    + pose proof (NoDup_matching Imap.unseen_from_facebook (inbox st)) as Hnd.
      fold (listed (inbox st)) in Hnd. rewrite Hl in Hnd.
      apply NoDup_app in Hnd as (Hnd & Hdisj & _).
      rewrite lookup_flags_after in He; [|done|].
      * replace (S (num - 1)) with num in He by lia.
        rewrite bool_decide_eq_false_2 in He.
        -- by destruct (inbox st !! (num - 1)); simplify_eq/=.
        -- intros Hin. apply (Hdisj num Hin). left.
      * pose proof (matching_in_range Imap.unseen_from_facebook (inbox st))
          as Hr. fold (listed (inbox st)) in Hr. rewrite Hl in Hr.
        apply Forall_app in Hr as [Hr _].
        eapply Forall_impl; [exact Hr|]. simpl. lia.
    + rewrite Htr. by rewrite <- !app_assoc.
Qed.







End RunFacts.

(** ** Runs of [main] *)

Section RunClaims.

Variable E : Env.

Lemma completed_run mb st' :
  main E (start mb) = (Ok tt, st') ->
  trace st' =
    [EvSearch] ++ concat (handling E (e_msg <$> mb) <$> listed mb)
      ++ [EvExpunge]
  /\ inbox st' = expunged (processed E mb).
Proof.
  intros Hrun. pose proof (main_run E (start mb)) as H.
  by rewrite Hrun in H.
Qed.

Lemma aborted_run mb err st' :
  main E (start mb) = (Raise err, st') ->
  err = HTTPError
  /\ exists before num rest e,
      listed mb = before ++ num :: rest
      /\ 0 < num
      /\ mb !! (num - 1) = Some e
      /\ msg_matches E (e_msg e) ≠ []
      /\ trace st' =
           [EvSearch] ++ concat (handling E (e_msg <$> mb) <$> before)
             ++ [EvFetch num;
                 EvPost (take 4096 (alert_text E (e_msg e)
                                      (msg_matches E (e_msg e)))) false]
      /\ inbox st' =
           alter (add_flag Seen) (num - 1) (flags_after E before mb).
Proof.
  intros Hrun. pose proof (main_run E (start mb)) as H.
  by rewrite Hrun in H.
Qed.



Lemma flags_after_msgs nums mb :
  e_msg <$> flags_after E nums mb = e_msg <$> mb.
Proof.
  revert mb. induction nums as [|num nums IH]; intros mb; [done|].
  unfold flags_after in *. cbn [foldl]. rewrite IH.
  apply fmap_msg_alter, handled_msg.
Qed.

Lemma listed_prefix mb before num rest :
  listed mb = before ++ num :: rest ->
  NoDup before /\ Forall (fun n => 0 < n) before /\ (num ∉ before)
  /\ before ⊆ listed mb /\ num ∈ listed mb.
Proof.
  intros Hl.
  pose proof (NoDup_matching Imap.unseen_from_facebook mb) as Hnd.
  pose proof (matching_in_range Imap.unseen_from_facebook mb) as Hr.
  fold (listed mb) in Hnd, Hr. rewrite Hl in Hnd, Hr |- *.
  apply NoDup_app in Hnd as (Hnd & Hdisj & _).
  apply Forall_app in Hr as [Hr _]. repeat split.
  - done.
  - eapply Forall_impl; [exact Hr|]. simpl. lia.
  - intros Hin. apply (Hdisj num Hin). left.
  - set_solver.
  - set_solver.
Qed.

(** The mailbox that an aborted run leaves behind. *)
Lemma aborted_run_lookup mb before num rest (i : nat) x :
  listed mb = before ++ num :: rest -> 0 < num ->
  mb !! i = Some x ->
  alter (add_flag Seen) (num - 1) (flags_after E before mb) !! i =
  Some (if decide (S i = num) then add_flag Seen x
        else if decide (S i ∈ before) then handled E x else x).
Proof.
  intros (Hnd & Hpos & Hnotin & _ & _)%listed_prefix Hnum Hx.
  destruct (decide (S i = num)) as [<-|Hne].
  - replace (S i - 1) with i by lia.
    rewrite list_lookup_alter_eq, lookup_flags_after, Hx by done. simpl.
    by rewrite bool_decide_eq_false_2.
  - rewrite list_lookup_alter_ne by lia.
    rewrite lookup_flags_after, Hx by done. simpl.
    destruct (decide (S i ∈ before)).
    + by rewrite bool_decide_eq_true_2.
    + by rewrite bool_decide_eq_false_2.
Qed.





(** C7: what a run leaves behind is the mailbox it found with flags added
    to listed messages only, and, when the run reaches its end, without the
    messages that carry [\Deleted]. No message is added or altered, no
    flag is taken away, and the state of the session holds nothing but the
    mailbox and the record of the commands and alerts sent. *)
Theorem run_only_adds_flags_and_expunges mb :
  exists mid,
    only_flags_added (listed mb) mb mid
    /\ match main E (start mb) with
       | (Ok _, st') => inbox st' = expunged mid
       | (Raise _, st') => inbox st' = mid
       end.
Proof.
  destruct (main E (start mb)) as [[[]|err] st'] eqn:Hrun.
  - apply completed_run in Hrun as [_ ->]. exists (processed E mb).
    split; [|done]. rewrite <- flags_after_listed.
    apply only_flags_added_flags_after;
      [apply only_flags_added_refl|done|].
    eapply Forall_impl; [apply matching_in_range|]. simpl. lia.
  - apply aborted_run in Hrun
      as (-> & before & num & rest & e & Hl & Hpos & He & Hne & _ & ->).
    destruct (listed_prefix _ _ _ _ Hl) as (_ & Hbpos & _ & Hsub & Hnum).
    eexists. split; [|done].
    apply only_flags_added_alter; [|done|done|apply add_seen_adds].
    by apply only_flags_added_flags_after; [apply only_flags_added_refl|..].
Qed.



End RunClaims.

(** ** Concrete messages and runs *)

Import Sample.

(** The model on small inputs. *)

Example default_search_terms :
  SEARCH_TERMS (env offline chat_up)
  = [[1502; 1493; 1502; 1492]%N; py "Moma"].
Proof. by vm_compute. Qed.

Example configured_search_terms :
  SEARCH_TERMS
    {| getenv_SEARCH_TERMS := Some (py " Tel Aviv ,, jazz");
       re_ieq := Re.ascii_ieq;
       decode_header := fun s => [(FragStr s, None)];
       bytes_decode := decode_bytes;
       bs4_get_text := fun html => html;
       requests_get := offline;
       telegram_accepts := chat_up |}
  = [py "Tel Aviv"; py ""; py "jazz"].
Proof. by vm_compute. Qed.

Example extract_links_sample :
  extract_links
    (py "see https://x.y/z?q=1, http://a httpx://b https:// http://c")
  = [py "https://x.y/z?q=1,"; py "http://a"; py "http://c"].
Proof. by vm_compute. Qed.

Example search_ignores_case :
  term_in (env offline chat_up) (py "Moma") (py "at MOMA, 8pm") = true
  /\ term_in (env offline chat_up) (py "Moma") (py "Mo ma") = false.
Proof. split; by vm_compute. Qed.

Example linked_page_is_followed :
  msg_matches (env web_hit chat_up) linked = [py "Moma"]
  /\ msg_matches (env offline chat_up) linked = [].
Proof. split; by vm_compute. Qed.

Example long_alert_is_cut :
  let msg := {| Subject := Some (py "Moma" ++ replicate 4200 33%N);
                From := Some (py "notification@facebookmail.com");
                body := Leaf (py "text/plain") None (bytes "hello") |} in
  let text := alert_text (env offline chat_up) msg [py "Moma"] in
  length text = 4243 /\ length (take 4096 text) = 4096.
Proof. split; by vm_compute. Qed.











(** * Further properties of the script *)

(** ** The term test *)

Section TermFacts.

Variable E : Env.

Lemma occurs_ci_context ieq term a s b :
  Re.occurs_ci ieq term s -> Re.occurs_ci ieq term (a ++ s ++ b).
Proof.
  intros (pre & mid & post & -> & Hm).
  exists (a ++ pre), mid, (post ++ b). by rewrite <- !app_assoc.
Qed.

Lemma elem_of_msg_matches_text msg term :
  term ∈ terms_in E (search_space E msg) -> term ∈ msg_matches E msg.
Proof.
  intros Hterm. unfold msg_matches. rewrite elem_of_elements.
  apply elem_of_found_set. by left.
Qed.

(** A window over [a ++ x :: b] lies in [a], lies in [b], or covers [x]. *)
Lemma window_beside_separator {A} (a b pre mid post : list A) x :
  a ++ x :: b = pre ++ mid ++ post ->
  (exists post', a = pre ++ mid ++ post')
  \/ (exists pre', b = pre' ++ mid ++ post)
  \/ x ∈ mid.
Proof.
  revert pre. induction a as [|y a IH]; intros pre Heq.
  - destruct pre as [|z pre]; simpl in Heq.
    + destruct mid as [|z mid]; simpl in Heq.
      * left. by exists [].
      * injection Heq as <- _. right; right. left.
    + injection Heq as <- ->. right; left. by exists pre.
  - destruct pre as [|z pre]; simpl in Heq.
    + clear IH. revert a b y Heq. induction mid as [|z mid IHm];
        intros a b y Heq.
      * left. by exists (y :: a).
      * simpl in Heq. injection Heq as <- Heq. destruct a as [|y' a].
        -- simpl in Heq. destruct mid as [|z' mid]; simpl in Heq.
           ++ left. by exists [].
           ++ injection Heq as <- _. right; right. right; left.
        -- destruct (IHm a b y' Heq) as [[post' Ha]|[[pre' Hb]|Hin]].
           ++ left. exists post'. simpl in *. by rewrite Ha.
           ++ exfalso. clear -Heq Hb. subst b.
              apply (f_equal length) in Heq.
              rewrite !length_app in Heq. simpl in Heq.
              rewrite !length_app in Heq. lia.
           ++ right; right. by right.
    + injection Heq as <- Heq.
      destruct (IH pre Heq) as [[post' ->]|[[pre' ->]|Hin]].
      * left. by exists post'.
      * right; left. by exists pre'.
      * by right; right.
Qed.

(** X1: a configured term that occurs, case-insensitively, in the decoded
    subject or in the decoded body text of a message is among the terms that
    [msg_matches] returns. *)
Theorem term_of_subject_or_body_is_matched msg term :
  term ∈ SEARCH_TERMS E ->
  Re.occurs_ci (re_ieq E) term
     (decode_mime_words E (Py.or_else (Subject msg) []))
  \/ Re.occurs_ci (re_ieq E) term (extract_text_from_msg E msg) ->
  term ∈ msg_matches E msg.
Proof.
  intros Hterm Hocc. apply elem_of_msg_matches_text, elem_of_terms_in.
  split; [done|]. unfold search_space. destruct Hocc as [Hs|Hb].
  - by apply (occurs_ci_context (re_ieq E) term []).
  - rewrite app_assoc.
    rewrite <- (app_nil_r (extract_text_from_msg E msg)).
    by apply occurs_ci_context.
Qed.

(** X2: a term that [msg_matches] returns, and that has no character which
    matches a newline, occurs in the decoded subject, in the decoded body
    text, or in the text of a linked page that was fetched: it is never
    found across the line that separates subject and body. *)
Theorem matched_term_lies_in_one_text msg term :
  term ∈ msg_matches E msg ->
  (forall p, p ∈ term -> re_ieq E p 10%N = false) ->
  Re.occurs_ci (re_ieq E) term
     (decode_mime_words E (Py.or_else (Subject msg) []))
  \/ Re.occurs_ci (re_ieq E) term (extract_text_from_msg E msg)
  \/ exists url page,
       url ∈ extract_links (extract_text_from_msg E msg)
       /\ requests_get E url = Some page
       /\ Re.occurs_ci (re_ieq E) term page.
Proof.
  intros Hterm Hline. unfold msg_matches in Hterm.
  rewrite elem_of_elements in Hterm.
  apply elem_of_found_set in Hterm as [Ht|(_ & url & page & Hu & Hg & Ht)].
  - apply elem_of_terms_in in Ht as [_ (pre & mid & post & Heq & Hm)].
    unfold search_space, newline in Heq. simpl in Heq.
    apply window_beside_separator in Heq
      as [[post' Hs]|[[pre' Hb]|Hin]].
    + left. by exists pre, mid, post'.
    + right; left. by exists pre', mid, post.
    + exfalso. apply list_elem_of_lookup in Hin as [i Hi].
      destruct (Forall2_lookup_r _ _ _ _ _ Hm Hi) as (p & Hp & Hpc).
      apply list_elem_of_lookup_2 in Hp. rewrite (Hline p Hp) in Hpc.
      discriminate.
  - right; right. exists url, page.
    by apply elem_of_terms_in in Ht as [_ Hocc].
Qed.

(** X3: when the configuration yields an empty term, as an empty piece
    between two commas does, that term is found in every message: whatever
    its text, every message is a match. *)
Theorem empty_term_matches_every_message msg :
  [] ∈ SEARCH_TERMS E ->
  [] ∈ msg_matches E msg /\ msg_matches E msg ≠ [].
Proof.
  intros Hempty.
  assert ([] ∈ msg_matches E msg) as Hin.
  { apply elem_of_msg_matches_text, elem_of_terms_in. split; [done|].
    exists [], [], (search_space E msg). split; [done|constructor]. }
  split; [done|]. intros Hnil. rewrite Hnil in Hin.
  by apply elem_of_nil in Hin.
Qed.

(** X4: a term that is longer than a text is not found in it; in an empty
    text only the empty term is found. *)
Theorem term_longer_than_text_is_not_found term text :
  length text < length term -> term_in E term text = false.
Proof.
  intros Hlen. apply not_true_is_false. unfold term_in.
  rewrite search_escaped_spec. intros (pre & mid & post & -> & Hm).
  apply Forall2_length in Hm. rewrite !length_app in Hlen. lia.
Qed.

End TermFacts.

(** ** Link extraction *)

Lemma startswith_spec p s :
  Py.startswith p s = true <-> exists r, s = p ++ r.
Proof.
  revert s. induction p as [|a p IH]; intros s; simpl.
  - split; [|done]. intros _. by exists s.
  - destruct s as [|b s].
    + split; [done|]. by intros [r ?].
    + rewrite andb_true_iff, N.eqb_eq, IH. split.
      * intros [-> [r ->]]. by exists r.
      * intros [r Heq]. injection Heq as -> ->. split; [done|]. by exists r.
Qed.






Lemma link_at_scheme scheme c rest :
  scheme = py "http://" \/ scheme = py "https://" ->
  Py.isspace c = false ->
  is_Some (Re.link_at (scheme ++ c :: rest)).
Proof.
  intros Hscheme Hc.
  assert (Re.scheme_match scheme (scheme ++ c :: rest)
          = Some (scheme ++ Py.nonspace_run (c :: rest))) as Hm.
  { unfold Re.scheme_match.
    rewrite (proj2 (startswith_spec scheme _)) by by exists (c :: rest).
    rewrite drop_app_length. simpl. by rewrite Hc. }
  unfold Re.link_at. destruct Hscheme as [-> | ->].
  - destruct (Re.scheme_match (py "https://") _); [done|]. by rewrite Hm.
  - by rewrite Hm.
Qed.

(** X6: a text in which [http://] or [https://] is directly followed by a
    character that is not whitespace yields at least one link. *)
Theorem text_with_url_has_a_link pre scheme c rest :
  scheme = py "http://" \/ scheme = py "https://" ->
  Py.isspace c = false ->
  extract_links (pre ++ scheme ++ c :: rest) ≠ [].
Proof.
  intros Hscheme Hc. unfold extract_links, Re.findall_links.
  induction pre as [|y pre IH].
  - destruct (link_at_scheme scheme c rest Hscheme Hc) as [l Hl].
    simpl app at 1. destruct (scheme ++ c :: rest) as [|z s] eqn:Hs.
    + destruct Hscheme as [-> | ->]; discriminate.
    + simpl. by rewrite Hl.
  - simpl. by destruct (Re.link_at _).
Qed.

(** ** The configured search terms *)

Lemma length_split sep s :
  length (Py.split sep s) = S (length (List.filter (N.eqb sep) s)).
Proof.
  induction s as [|c s IH]; [done|]. simpl. rewrite (N.eqb_sym sep c).
  destruct (c =? sep)%N; simpl; [by rewrite IH|].
  destruct (Py.split sep s); simpl in *; [done|lia].
Qed.

Lemma split_no_sep sep s : Forall (fun piece => sep ∉ piece) (Py.split sep s).
Proof.
  induction s as [|c s IH]; simpl.
  - constructor; [|done]. by intros ?%elem_of_nil.
  - destruct (N.eqb_spec c sep) as [->|Hne].
    + constructor; [|done]. by intros ?%elem_of_nil.
    + destruct (Py.split sep s) as [|h t].
      * constructor; [|done].
        intros [->|?%elem_of_nil]%elem_of_cons; done.
      * apply Forall_cons in IH as [Hh Ht]. constructor; [|done].
        intros [->|?]%elem_of_cons; done.
Qed.

Lemma join_split sep s : Py.join [sep] (Py.split sep s) = s.
Proof.
  induction s as [|c s IH]; [done|]. simpl.
  destruct (N.eqb_spec c sep) as [->|Hne].
  - destruct (Py.split sep s) as [|h t] eqn:Hs; [by destruct s|].
    simpl in *. by rewrite IH.
  - destruct (Py.split sep s) as [|h t] eqn:Hs; [by destruct s|].
    destruct t; simpl in *; by rewrite <- IH.
Qed.

Lemma lstrip_spec s :
  exists pre,
    s = pre ++ Py.lstrip s
    /\ Forall (fun c => Py.isspace c = true) pre
    /\ forall c, head (Py.lstrip s) = Some c -> Py.isspace c = false.
Proof.
  induction s as [|c s (pre & Hs & Hpre & Hhead)]; simpl.
  - by exists [].
  - destruct (Py.isspace c) eqn:Hc.
    + exists (c :: pre). split; [by rewrite Hs at 1|]. by split; [constructor|].
    + exists []. repeat split; [done|]. by intros ? [= <-].
Qed.

Lemma rstrip_spec s :
  exists post,
    s = Py.rstrip s ++ post
    /\ Forall (fun c => Py.isspace c = true) post
    /\ forall c, last (Py.rstrip s) = Some c -> Py.isspace c = false.
Proof.
  unfold Py.rstrip.
  destruct (lstrip_spec (reverse s)) as (pre & Hs & Hpre & Hhead).
  exists (reverse pre). repeat split.
  - rewrite <- reverse_app, <- Hs. by rewrite reverse_involutive.
  - by apply Forall_reverse.
  - intros c. rewrite last_reverse. apply Hhead.
Qed.

Lemma strip_spec s :
  (exists pre post,
     s = pre ++ Py.strip s ++ post
     /\ Forall (fun c => Py.isspace c = true) pre
     /\ Forall (fun c => Py.isspace c = true) post)
  /\ (forall c, head (Py.strip s) = Some c -> Py.isspace c = false)
  /\ (forall c, last (Py.strip s) = Some c -> Py.isspace c = false).
Proof.
  unfold Py.strip.
  destruct (lstrip_spec s) as (pre & Hs & Hpre & Hhead).
  destruct (rstrip_spec (Py.lstrip s)) as (post & Hr & Hpost & Hlast).
  repeat split; [|intros c Hc|done].
  - exists pre, post. by rewrite <- Hr.
  - apply Hhead. rewrite Hr.
    destruct (Py.rstrip (Py.lstrip s)); [done|exact Hc].
Qed.

(** X7: the configured string is cut at its commas and every piece loses the
    whitespace around it, nothing else. So there is one term more than there
    are commas, and at least one term; the pieces joined by commas give the
    configured string back; and a term has no comma and neither begins nor
    ends with whitespace. *)
Theorem search_terms_are_trimmed_pieces (E : Env) :
  let conf := default (default_terms) (getenv_SEARCH_TERMS E) in
  length (SEARCH_TERMS E) = S (length (List.filter (N.eqb 44) conf))
  /\ Py.join [44%N] (Py.split 44 conf) = conf
  /\ Forall2
       (fun piece term =>
          exists pre post,
            piece = pre ++ term ++ post
            /\ Forall (fun c => Py.isspace c = true) pre
            /\ Forall (fun c => Py.isspace c = true) post)
       (Py.split 44 conf) (SEARCH_TERMS E)
  /\ Forall
       (fun term =>
          (44%N ∉ term)
          /\ (forall c, head term = Some c -> Py.isspace c = false)
          /\ (forall c, last term = Some c -> Py.isspace c = false))
       (SEARCH_TERMS E).
Proof.
  intros conf. unfold SEARCH_TERMS. fold conf.
  split; [by rewrite length_map, length_split|].
  split; [apply join_split|].
  pose proof (split_no_sep 44%N conf) as Hsep.
  induction (Py.split 44 conf) as [|piece pieces IH]; simpl.
  - split; constructor.
  - apply Forall_cons in Hsep as [Hpiece Hsep].
    destruct (IH Hsep) as [IH2 IHf].
    destruct (strip_spec piece) as ((pre & post & Hp & Hpre & Hpost) & Hh & Hl).
    split; constructor; try done.
    + by exists pre, post.
    + repeat split; try done. intros Hin. apply Hpiece. rewrite Hp.
      rewrite !elem_of_app. right; by left.
Qed.

(** ** The text of a message *)

Section TextFacts.

Variable E : Env.

(** Induction over a MIME tree and the subparts of its containers. *)
Lemma Part_nested_ind (P : Part -> Prop) :
  (forall ctype charset payload, P (Leaf ctype charset payload)) ->
  (forall ps, Forall P ps -> P (Multipart ps)) ->
  forall p, P p.
Proof.
  intros Hleaf Hmulti. fix IH 1. intros [ctype charset payload|ps].
  - apply Hleaf.
  - apply Hmulti. induction ps as [|p ps IHps]; constructor.
    + apply IH.
    + exact IHps.
Qed.

Lemma walked_text_app ps qs :
  concat (map (walked_text E) (ps ++ qs)) =
  concat (map (walked_text E) ps) ++ concat (map (walked_text E) qs).
Proof. by rewrite map_app, concat_app. Qed.

Lemma walk_text_leaves p :
  concat (map (walked_text E) (walk p)) =
  concat (map (walked_text E) (leaves p)).
Proof.
  induction p as [ctype charset payload|ps IH] using Part_nested_ind.
  - done.
  - cbn [walk leaves map concat walked_text app].
    induction IH as [|p ps Hp _ IHps]; [done|].
    cbn [map concat]. by rewrite !walked_text_app, Hp, IHps.
Qed.

(** X8: the text of a multipart message is made of what its leaves
    contribute, in depth-first order: the nesting of the containers does not
    matter, and a leaf that is neither [text/plain] nor [text/html]
    contributes nothing. *)
Theorem multipart_text_is_the_text_of_its_leaves msg :
  (exists ps, body msg = Multipart ps) ->
  extract_text_from_msg E msg =
    Py.join newline (concat (map (walked_text E) (leaves (body msg))))
  /\ forall ctype charset payload,
       ctype ≠ py "text/plain" -> ctype ≠ py "text/html" ->
       walked_text E (Leaf ctype charset payload) = [].
Proof.
  intros [ps Hbody]. split.
  - unfold extract_text_from_msg. rewrite Hbody.
    by rewrite (walk_text_leaves (Multipart ps)).
  - intros ctype charset payload Hplain Hhtml. unfold walked_text.
    by rewrite !bool_decide_eq_false_2.
Qed.


Lemma join_contains sep l (x : pystr) :
  x ∈ l -> exists pre post, Py.join sep l = pre ++ x ++ post.
Proof.
  induction l as [|y l IH]; [by intros ?%elem_of_nil|].
  intros [->|Hin]%elem_of_cons.
  - destruct l as [|z l].
    + exists [], []. simpl. by rewrite app_nil_r.
    + by exists [], (sep ++ Py.join sep (z :: l)).
  - destruct (IH Hin) as (pre & post & Heq). destruct l as [|z l].
    + by apply elem_of_nil in Hin.
    + exists (y ++ sep ++ pre), post.
      change (Py.join sep (y :: z :: l))
        with (y ++ sep ++ Py.join sep (z :: l)).
      by rewrite Heq, <- !app_assoc.
Qed.

(** X10: the alert text names every matched term, and it ends with the
    decoded subject, or [(no subject)] when the message has none or an empty
    one, a newline, and the first link of the body text, or [(no link)]. *)
Theorem alert_text_names_terms_subject_and_link msg matches :
  (forall term, term ∈ matches ->
     exists pre post, alert_text E msg matches = pre ++ term ++ post)
  /\ exists head_line,
      alert_text E msg matches =
        head_line
          ++ decode_mime_words E
               (match Subject msg with
                | Some (c :: s) => c :: s
                | _ => py "(no subject)"
                end)
          ++ [10%N]
          ++ match extract_links (extract_text_from_msg E msg) with
             | link :: _ => link
             | [] => py "(no link)"
             end.
Proof.
  split.
  - intros term (pre & post & Heq)%(join_contains (py ", ")).
    unfold alert_text. rewrite Heq.
    exists ([128276%N] ++ py " Facebook hit (found: " ++ pre).
    eexists. rewrite <- !app_assoc. reflexivity.
  - exists ([128276%N] ++ py " Facebook hit (found: "
              ++ Py.join (py ", ") matches ++ py ")" ++ newline).
    unfold alert_text, Py.or_else. rewrite <- !app_assoc.
    do 5 f_equal.
    by destruct (extract_links (extract_text_from_msg E msg)).
Qed.

(** X11: [send_telegram] posts once and leaves the mailbox alone. What it
    posts is a prefix of the text, the whole text when that has at most
    4096 characters and its first 4096 characters otherwise; it raises
    exactly when the post is not accepted. *)
Theorem send_telegram_posts_a_prefix text st :
  exists payload rest ok,
    text = payload ++ rest
    /\ length payload = min 4096 (length text)
    /\ (length text <= 4096 -> payload = text)
    /\ ok = telegram_accepts E (posted (trace st)) payload
    /\ send_telegram E text st =
         (if ok then Ok tt else Raise HTTPError,
          {| inbox := inbox st; trace := trace st ++ [EvPost payload ok] |}).
Proof.
  exists (take 4096 text), (drop 4096 text),
    (telegram_accepts E (posted (trace st)) (take 4096 text)).
  split; [by rewrite take_drop|]. split; [apply length_take|].
  split; [apply take_ge|]. done.
Qed.

End TextFacts.

(** ** Runs and the runs after them *)

Section MoreRunFacts.

Variable E : Env.

Lemma quiet_run (E' : Env) mb :
  listed mb = [] ->
  main E' (start mb) =
    (Ok tt, {| inbox := expunged mb; trace := [EvSearch; EvExpunge] |}).
Proof.
  intros Hnone. unfold main, Imap.search, Imap.expunge, mbind, M_bind, bind,
    emit, get_inbox, set_inbox, ret. simpl. fold (listed mb).
  by rewrite Hnone.
Qed.

(** X12: when the search lists no message, a run cannot fail, whatever the
    chat API would answer: it posts nothing, fetches nothing, flags nothing
    and only expunges. *)
Theorem run_without_listed_messages mb :
  listed mb = [] ->
  main E (start mb) =
    (Ok tt, {| inbox := expunged mb; trace := [EvSearch; EvExpunge] |}).
Proof.
  intros Hnone. unfold main, Imap.search. simpl.
  unfold mbind, M_bind, bind, emit, get_inbox, ret. simpl.
  fold (listed mb). rewrite Hnone. simpl.
  unfold Imap.expunge, mbind, M_bind, bind, emit, get_inbox, set_inbox.
  done.
Qed.



Lemma matching_none key mb :
  Forall (fun e => key e = false) mb -> Imap.matching key mb = [].
Proof.
  intros Hall. apply elem_of_nil_inv.
  intros num (_ & e & He & Hkey)%elem_of_matching.
  apply list_elem_of_lookup_2 in He.
  rewrite Forall_forall in Hall. by rewrite (Hall e He) in Hkey.
Qed.

Lemma handled_not_unseen e : Imap.unseen_from_facebook (handled E e) = false.
Proof.
  unfold handled, Imap.unseen_from_facebook.
  by destruct (msg_matches E (e_msg e)).
Qed.

Lemma processed_not_unseen mb :
  Forall (fun e => Imap.unseen_from_facebook e = false) (processed E mb).
Proof.
  unfold processed. apply Forall_fmap, Forall_forall. intros e _. simpl.
  destruct (Imap.unseen_from_facebook e) eqn:Hkey;
    [apply handled_not_unseen|done].
Qed.

Lemma expunged_Forall (P : entry -> Prop) mb :
  Forall P mb -> Forall P (expunged mb).
Proof.
  rewrite !Forall_forall. intros Hall e He. apply Hall.
  apply list_elem_of_In in He. apply filter_In in He as [He _].
  by apply list_elem_of_In.
Qed.

Lemma expunged_idemp mb : expunged (expunged mb) = expunged mb.
Proof.
  unfold expunged. induction mb as [|e mb IH]; [done|]. simpl.
  destruct (e_deleted e) eqn:Hd; simpl; [done|]. by rewrite Hd, IH.
Qed.

(** X14: after a run that reached its end, nothing is left to do: a search
    on the mailbox it leaves lists no message, so a second run, with any
    configuration, sends no alert and leaves the mailbox as it is. *)
Theorem second_run_does_nothing mb st' :
  main E (start mb) = (Ok tt, st') ->
  listed (inbox st') = []
  /\ forall E',
       main E' (start (inbox st')) =
         (Ok tt, {| inbox := inbox st'; trace := [EvSearch; EvExpunge] |}).
Proof.
  intros [_ Hmb]%completed_run.
  assert (listed (inbox st') = []) as Hnone.
  { rewrite Hmb. apply matching_none, expunged_Forall, processed_not_unseen. }
  split; [done|]. intros E'. rewrite (quiet_run E' _ Hnone).
  by rewrite Hmb, expunged_idemp.
Qed.

Lemma filter_andb {A} (f g : A -> bool) l :
  List.filter (fun x => f x && g x) l = List.filter g (List.filter f l).
Proof.
  induction l as [|x l IH]; [done|]. simpl.
  destruct (f x); simpl; [|done]. destruct (g x); by rewrite IH.
Qed.

Lemma filter_outside (skip : list nat) l :
  (forall n, n ∈ l -> n ∉ skip) ->
  List.filter (fun n => negb (bool_decide (n ∈ skip))) l = l.
Proof.
  induction l as [|x l IH]; intros Hout; [done|]. simpl.
  rewrite bool_decide_eq_false_2 by (apply Hout; left). simpl.
  rewrite IH; [done|]. intros n Hn. apply Hout. by right.
Qed.

Lemma filter_inside (skip : list nat) l :
  (forall n, n ∈ l -> n ∈ skip) ->
  List.filter (fun n => negb (bool_decide (n ∈ skip))) l = [].
Proof.
  induction l as [|x l IH]; intros Hin; [done|]. simpl.
  rewrite bool_decide_eq_true_2 by (apply Hin; left). simpl.
  apply IH. intros n Hn. apply Hin. by right.
Qed.

(** X15: after a run that a failed alert aborted, the next search lists
    exactly the messages that came after the failing one. The message whose
    alert failed is not listed again, so its alert is not sent later. *)
Theorem next_run_after_abort_lists_the_rest mb err st' :
  main E (start mb) = (Raise err, st') ->
  exists before num rest,
    listed mb = before ++ num :: rest
    /\ listed (inbox st') = rest.
Proof.
  intros Hrun. apply aborted_run in Hrun
    as (_ & before & num & rest & e & Hl & Hpos & He & _ & _ & Hmb).
  exists before, num, rest. split; [done|].
  set (skip := before ++ [num]).
  assert (listed (inbox st') =
          List.filter (fun n => negb (bool_decide (n ∈ skip))) (listed mb))
    as ->.
  { unfold listed, Imap.matching. rewrite <- filter_andb.
    rewrite Hmb, length_alter.
    assert (length (flags_after E before mb) = length mb) as ->.
    { rewrite <- (length_fmap e_msg), flags_after_msgs. apply length_fmap. }
    apply filter_ext_in. intros n [Hlo Hhi]%in_seq. rewrite <- Hmb.
    destruct (lookup_lt_is_Some_2 mb (n - 1)) as [x Hx]; [lia|].
    rewrite Hmb, (aborted_run_lookup E mb before num rest (n - 1) x Hl Hpos Hx).
    rewrite Hx. replace (S (n - 1)) with n by lia. unfold skip.
    destruct (decide (n = num)) as [->|Hne].
    - rewrite bool_decide_eq_true_2 by set_solver.
      by rewrite andb_false_r.
    - destruct (decide (n ∈ before)) as [Hin|Hout].
      + rewrite bool_decide_eq_true_2 by set_solver.
        by rewrite andb_false_r, handled_not_unseen.
      + rewrite bool_decide_eq_false_2 by set_solver.
        by rewrite andb_true_r. }
  pose proof (NoDup_matching Imap.unseen_from_facebook mb) as Hnd.
  fold (listed mb) in Hnd. rewrite Hl in Hnd |- *.
  apply NoDup_app in Hnd as (_ & Hdisj & Hnd).
  apply NoDup_cons in Hnd as [Hnum _].
  rewrite List.filter_app. simpl.
  rewrite filter_inside by (unfold skip; set_solver).
  rewrite bool_decide_eq_true_2 by (unfold skip; set_solver). simpl.
  apply filter_outside. intros n Hn. unfold skip.
  intros [Hin|Hin%list_elem_of_singleton]%elem_of_app.
  - apply (Hdisj n Hin). by right.
  - by subst.
Qed.

Lemma posted_handling msgs nums :
  length (posted (concat (handling E msgs <$> nums))) <= length nums.
Proof.
  induction nums as [|num nums IH]; [simpl; lia|].
  cbn [fmap list_fmap concat]. rewrite posted_app, length_app. simpl.
  assert (length (posted (handling E msgs num)) <= 1); [|lia].
  unfold handling. destruct (msgs !! (num - 1)); [|simpl; lia].
  destruct (msg_matches E _); simpl; lia.
Qed.

(** X16: a run never posts more alerts than the search listed messages. *)
Theorem at_most_one_alert_per_listed_message mb :
  length (posted (trace (main E (start mb)).2)) <= length (listed mb).
Proof.
  destruct (main E (start mb)) as [[[]|err] st'] eqn:Hrun; simpl.
  - apply completed_run in Hrun as [-> _].
    rewrite !posted_app, !length_app. simpl.
    pose proof (posted_handling (e_msg <$> mb) (listed mb)). lia.
  - apply aborted_run in Hrun
      as (_ & before & num & rest & e & -> & _ & _ & _ & -> & _).
    rewrite !posted_app, !length_app. simpl.
    pose proof (posted_handling (e_msg <$> mb) before). lia.
Qed.

(** X17: a listed message with a match that was not flagged [\Deleted]
    before the run is still in the mailbox after a run that reached its
    end, and it is marked [\Seen]. *)
Theorem matching_message_is_kept_and_read mb st' num e :
  main E (start mb) = (Ok tt, st') ->
  num ∈ listed mb -> mb !! (num - 1) = Some e ->
  msg_matches E (e_msg e) ≠ [] -> e_deleted e = false ->
  {| e_msg := e_msg e; e_seen := true; e_deleted := false |} ∈ inbox st'.
Proof.
  intros [_ ->]%completed_run (_ & e' & He' & Hkey)%elem_of_matching He Hm Hd.
  rewrite He in He'. injection He' as <-.
  unfold expunged. apply list_elem_of_In, filter_In. split; [|done].
  apply list_elem_of_In, list_elem_of_lookup. exists (num - 1).
  unfold processed. rewrite list_lookup_fmap, He. simpl. rewrite Hkey.
  unfold handled. destruct (msg_matches E (e_msg e)); [done|].
  simpl. by rewrite Hd.
Qed.

End MoreRunFacts.

(** ** The further properties on concrete inputs *)

Import Sample2.

Lemma term_of_subject_or_body_is_matched_witness :
  let E := env offline chat_up in
  py "Moma" ∈ SEARCH_TERMS E
  /\ (Re.occurs_ci (re_ieq E) (py "Moma")
        (decode_mime_words E (Py.or_else (Subject hit) []))
      \/ Re.occurs_ci (re_ieq E) (py "Moma") (extract_text_from_msg E hit))
  /\ py "Moma" ∈ msg_matches E hit.
Proof.
  intros E.
  assert (py "Moma" ∈ SEARCH_TERMS E) as Hterm.
  { apply list_elem_of_lookup. exists 1. by vm_compute. }
  assert (Re.occurs_ci (re_ieq E) (py "Moma")
            (decode_mime_words E (Py.or_else (Subject hit) []))
          \/ Re.occurs_ci (re_ieq E) (py "Moma")
               (extract_text_from_msg E hit)) as Hocc.
  { left. apply search_escaped_spec. by vm_compute. }
  split; [exact Hterm|]. split; [exact Hocc|].
  exact (term_of_subject_or_body_is_matched E hit (py "Moma") Hterm Hocc).
Defined.

Lemma matched_term_lies_in_one_text_witness :
  let E := env offline chat_up in
  py "Moma" ∈ msg_matches E hit
  /\ (forall p, p ∈ py "Moma" -> re_ieq E p 10%N = false)
  /\ (Re.occurs_ci (re_ieq E) (py "Moma")
        (decode_mime_words E (Py.or_else (Subject hit) []))
      \/ Re.occurs_ci (re_ieq E) (py "Moma") (extract_text_from_msg E hit)
      \/ exists url page,
           url ∈ extract_links (extract_text_from_msg E hit)
           /\ requests_get E url = Some page
           /\ Re.occurs_ci (re_ieq E) (py "Moma") page).
Proof.
  intros E.
  assert (py "Moma" ∈ msg_matches E hit) as Hterm.
  { apply list_elem_of_lookup. exists 0. by vm_compute. }
  assert (forall p, p ∈ py "Moma" -> re_ieq E p 10%N = false) as Hline.
  { intros p Hp.
    repeat (apply elem_of_cons in Hp as [->|Hp]; [by vm_compute|]).
    by apply elem_of_nil in Hp. }
  split; [exact Hterm|]. split; [exact Hline|].
  exact (matched_term_lies_in_one_text E hit (py "Moma") Hterm Hline).
Defined.

Lemma empty_term_matches_every_message_witness :
  let E := env_with_terms "Moma," in
  [] ∈ SEARCH_TERMS E
  /\ [] ∈ msg_matches E miss /\ msg_matches E miss ≠ [].
Proof.
  intros E.
  assert ([] ∈ SEARCH_TERMS E) as Hempty.
  { apply list_elem_of_lookup. exists 1. by vm_compute. }
  split; [exact Hempty|].
  exact (empty_term_matches_every_message E miss Hempty).
Defined.

Lemma term_longer_than_text_is_not_found_witness :
  let E := env offline chat_up in
  length (py "Mom") < length (py "Moma")
  /\ term_in E (py "Moma") (py "Mom") = false.
Proof.
  intros E.
  assert (length (py "Mom") < length (py "Moma")) as Hlen by (simpl; lia).
  split; [exact Hlen|].
  exact (term_longer_than_text_is_not_found E (py "Moma") (py "Mom") Hlen).
Defined.


Lemma text_with_url_has_a_link_witness :
  (py "https://" = py "http://" \/ py "https://" = py "https://")
  /\ Py.isspace 120%N = false
  /\ extract_links (py "see " ++ py "https://" ++ 120%N :: py ".y") ≠ [].
Proof.
  assert (py "https://" = py "http://" \/ py "https://" = py "https://")
    as Hscheme by by right.
  assert (Py.isspace 120%N = false) as Hc by by vm_compute.
  split; [exact Hscheme|]. split; [exact Hc|].
  exact (text_with_url_has_a_link (py "see ") (py "https://") 120%N
           (py ".y") Hscheme Hc).
Defined.

Lemma multipart_text_is_the_text_of_its_leaves_witness :
  let E := env offline chat_up in
  (exists ps, body nested = Multipart ps)
  /\ (extract_text_from_msg E nested =
        Py.join newline
          (concat (map (walked_text E) (leaves (body nested))))
      /\ forall ctype charset payload,
           ctype ≠ py "text/plain" -> ctype ≠ py "text/html" ->
           walked_text E (Leaf ctype charset payload) = [])
  /\ extract_text_from_msg E nested = extract_text_from_msg E flat.
Proof.
  intros E.
  assert (exists ps, body nested = Multipart ps) as Hmulti by by eexists.
  split; [exact Hmulti|].
  split; [exact (multipart_text_is_the_text_of_its_leaves E nested Hmulti)|].
  by vm_compute.
Defined.


Lemma run_without_listed_messages_witness :
  let E := env offline chat_down in
  listed [stale] = []
  /\ main E (start [stale]) =
       (Ok tt,
        {| inbox := expunged [stale]; trace := [EvSearch; EvExpunge] |}).
Proof.
  intros E.
  assert (listed [stale] = []) as Hnone by by vm_compute.
  split; [exact Hnone|].
  exact (run_without_listed_messages E [stale] Hnone).
Defined.


Lemma second_run_does_nothing_witness :
  let E := env offline chat_up in
  let mb := [unread hit; stale; unread miss] in
  let st' := (main E (start mb)).2 in
  main E (start mb) = (Ok tt, st')
  /\ listed (inbox st') = []
  /\ forall E',
       main E' (start (inbox st')) =
         (Ok tt, {| inbox := inbox st'; trace := [EvSearch; EvExpunge] |}).
Proof.
  intros E mb st'.
  assert (main E (start mb) = (Ok tt, st')) as Hrun by by vm_compute.
  split; [exact Hrun|].
  exact (second_run_does_nothing E mb st' Hrun).
Defined.

Lemma next_run_after_abort_lists_the_rest_witness :
  let E := env offline chat_down in
  let mb := [unread miss; unread hit; unread miss] in
  let st' := (main E (start mb)).2 in
  main E (start mb) = (Raise HTTPError, st')
  /\ (exists before num rest,
        listed mb = before ++ num :: rest /\ listed (inbox st') = rest)
  /\ listed (inbox st') = [3].
Proof.
  intros E mb st'.
  assert (main E (start mb) = (Raise HTTPError, st')) as Hrun by by vm_compute.
  split; [exact Hrun|].
  split; [exact (next_run_after_abort_lists_the_rest E mb HTTPError st' Hrun)|].
  by vm_compute.
Defined.

Lemma matching_message_is_kept_and_read_witness :
  let E := env offline chat_up in
  let mb := [unread miss; unread hit] in
  let st' := (main E (start mb)).2 in
  main E (start mb) = (Ok tt, st')
  /\ 2 ∈ listed mb
  /\ mb !! (2 - 1) = Some (unread hit)
  /\ msg_matches E (e_msg (unread hit)) ≠ []
  /\ e_deleted (unread hit) = false
  /\ {| e_msg := hit; e_seen := true; e_deleted := false |} ∈ inbox st'.
Proof.
  intros E mb st'.
  assert (main E (start mb) = (Ok tt, st')) as Hrun by by vm_compute.
  assert (2 ∈ listed mb) as Hnum.
  { apply list_elem_of_lookup. exists 1. by vm_compute. }
  assert (mb !! (2 - 1) = Some (unread hit)) as He by done.
  assert (msg_matches E (e_msg (unread hit)) ≠ []) as Hm by by vm_compute.
  assert (e_deleted (unread hit) = false) as Hd by done.
  repeat (split; [assumption|]).
  exact (matching_message_is_kept_and_read E mb st' 2 (unread hit)
           Hrun Hnum He Hm Hd).
Defined.

(** X18: a message that is a single part of any type but [text/plain] is
    read as HTML, whatever its type, and has an empty text when its payload
    is empty; the same part as the only content of a multipart message
    contributes nothing unless its type is [text/html]. *)
Theorem single_part_is_read_as_html_unless_plain
    (E : Env) msg ctype charset payload :
  body msg = Leaf ctype charset payload ->
  ctype ≠ py "text/plain" ->
  extract_text_from_msg E msg =
    match payload with
    | [] => []
    | _ :: _ =>
        bs4_get_text E
          (bytes_decode E payload (Py.or_else charset (py "utf-8")))
    end
  /\ (ctype ≠ py "text/html" ->
      forall msg',
        body msg' = Multipart [Leaf ctype charset payload] ->
        extract_text_from_msg E msg' = []).
Proof.
  intros Hbody Hplain. split.
  - unfold extract_text_from_msg. rewrite Hbody.
    destruct payload; [done|]. by rewrite bool_decide_eq_false_2.
  - intros Hhtml msg' Hbody'. unfold extract_text_from_msg. rewrite Hbody'.
    simpl. by rewrite !bool_decide_eq_false_2.
Qed.

Lemma single_part_is_read_as_html_unless_plain_witness :
  let E := env offline chat_up in
  let msg := {| Subject := None; From := None; body := attachment |} in
  body msg = Leaf (py "image/png") None (bytes "PNG")
  /\ py "image/png" ≠ py "text/plain"
  /\ extract_text_from_msg E msg =
       bs4_get_text E (bytes_decode E (bytes "PNG")
                                    (Py.or_else None (py "utf-8")))
  /\ (py "image/png" ≠ py "text/html" ->
      forall msg',
        body msg' = Multipart [Leaf (py "image/png") None (bytes "PNG")] ->
        extract_text_from_msg E msg' = []).
Proof.
  intros E msg.
  assert (body msg = Leaf (py "image/png") None (bytes "PNG")) as Hbody
    by done.
  assert (py "image/png" ≠ py "text/plain") as Hplain by done.
  split; [exact Hbody|]. split; [exact Hplain|].
  exact (single_part_is_read_as_html_unless_plain E msg (py "image/png")
           None (bytes "PNG") Hbody Hplain).
Defined.
